(** * Convex todo popup: the four backend functions and the popup component

    The development embeds

    - [convex/todos.ts] (the functions [list], [add], [toggle], [remove]) as
      handler programs over the document-store interface [ctx.db], and
    - [src/App.tsx] (the [App] component: [handleSubmit], [remaining], the
      rendered list area and footer) as functions over the component state,

    and proves the properties the specification states about them. *)

From stdpp Require Import gmap list sorting strings.
From Stdlib Require Import NArith.

(** ** JavaScript strings

    A JavaScript string is a sequence of UTF-16 code units. *)

Module Js.

Definition jsstring : Type := list N.

  (** [WhiteSpace] and [LineTerminator] code points of ECMAScript, the
      characters [String.prototype.trim] strips. All of them lie in the basic
      plane, so the test is on single code units. *)
Definition isWhiteSpace (c : N) : bool :=
   ((c =? 0x9) || (c =? 0xA) || (c =? 0xB) || (c =? 0xC) || (c =? 0xD)
    || (c =? 0x20) || (c =? 0xA0) || (c =? 0x1680)
    || ((0x2000 <=? c) && (c <=? 0x200A))
    || (c =? 0x2028) || (c =? 0x2029) || (c =? 0x202F) || (c =? 0x205F)
    || (c =? 0x3000) || (c =? 0xFEFF))%N.

Fixpoint trimStart (s : jsstring) : jsstring :=
    match s with
    | [] => []
    | c :: s' => if isWhiteSpace c then trimStart s' else s
    end.

Definition trimEnd (s : jsstring) : jsstring := reverse (trimStart (reverse s)).

  (** [s.trim()] *)
Definition trim (s : jsstring) : jsstring := trimEnd (trimStart s).

  (** ToBoolean on a string: the empty string is the only falsy one. *)
Definition truthy (s : jsstring) : bool :=
    match s with [] => false | _ :: _ => true end.

  (** String literals of the source, as code units. *)
Definition lit (s : string) : jsstring :=
    Ascii.N_of_ascii <$> String.list_ascii_of_string s.

Definition whitespaceOnly (s : jsstring) : Prop := Forall (λ c, isWhiteSpace c = true) s.

End Js.

Import Js.


(** ** The document store of the platform

    [convex/schema.ts] declares one table, [todos], with the fields [text]
    and [isCompleted]; the platform adds [_id] and [_creationTime] to every
    document. *)

Definition Id : Type := N.

Record Fields : Type := mkFields {
  f_text : jsstring;
  f_isCompleted : bool
}.

Record Doc : Type := mkDoc {
  _id : Id;
  _creationTime : N;
  text : jsstring;
  isCompleted : bool
}.

Record Store : Type := mkStore {
  todos_table : gmap Id Doc;
  clock : N
}.

(** The partial document given to [ctx.db.patch]: a field that is present
    overwrites the stored one. *)
Record PatchFields : Type := mkPatch {
  p_text : option jsstring;
  p_isCompleted : option bool
}.

Definition apply_patch (p : PatchFields) (d : Doc) : Doc :=
  {| _id := _id d;
     _creationTime := _creationTime d;
     text := default (text d) (p_text p);
     isCompleted := default (isCompleted d) (p_isCompleted p) |}.

(** The order of the default index: by creation time, then by identifier.
    [newer_first a b] holds when [a] may stand before [b] in a descending
    scan. *)
Definition newer_first (a b : Doc) : Prop :=
  (_creationTime b < _creationTime a)%N
  ∨ (_creationTime b = _creationTime a ∧ (_id b <= _id a)%N).

#[global] Instance newer_first_dec (a b : Doc) : Decision (newer_first a b).
Proof. unfold newer_first. apply _. Defined.

Module Db.

(** Modelled from the spec: [ctx.db.get] of the platform, which is not in the
    repository; the document with that identifier, or [None] for JavaScript's
    [null] when there is none. *)
Definition get (id : Id) (s : Store) : option Doc := todos_table s !! id.

(** Modelled from the spec: [ctx.db.insert] of the platform, which is not in
    the repository; the new document gets an identifier no stored document
    has and the creation time of the platform's clock. *)
Definition insert (f : Fields) (s : Store) : Id * Store :=
  let id := fresh (dom (todos_table s)) in
  (id,
   {| todos_table :=
        <[id := mkDoc id (clock s) (f_text f) (f_isCompleted f)]> (todos_table s);
      clock := N.succ (clock s) |}).

(** Modelled from the spec: [ctx.db.patch] of the platform, which is not in
    the repository; the given fields of an existing document are overwritten,
    and the platform raises an error when there is no such document. *)
Definition patch (id : Id) (p : PatchFields) (s : Store) : option Store :=
  match todos_table s !! id with
  | Some d =>
      Some {| todos_table := <[id := apply_patch p d]> (todos_table s);
              clock := clock s |}
  | None => None
  end.

(** [ctx.db.delete] of the platform, which is not in the repository: an
    existing document is deleted, and the platform raises an error when there
    is no such document, as it does for [patch]. The specification's sentence
    that a missing identifier silently succeeds does not hold of the
    platform. *)
Definition delete (id : Id) (s : Store) : option Store :=
  match todos_table s !! id with
  | Some _ =>
      Some {| todos_table := base.delete id (todos_table s); clock := clock s |}
  | None => None
  end.

(** Modelled from the spec: [ctx.db.query("todos").order("desc").collect()] of
    the platform, which is not in the repository; every document of the
    table, newest first. *)
Definition query_desc_collect (s : Store) : list Doc :=
  merge_sort newer_first (snd <$> map_to_list (todos_table s)).

End Db.

(** ** Backend functions as programs over [ctx.db] *)

Inductive Outcome (A : Type) : Type :=
| Resolved (a : A)
| Rejected (msg : string).
Arguments Resolved {A} a.
Arguments Rejected {A} msg.

(** A handler body: each [await ctx.db...] is a node whose continuation
    receives the value the platform gives back. *)
Inductive Handler (A : Type) : Type :=
| Return (a : A)
| Throw (msg : string)
| AwaitGet (id : Id) (k : option Doc → Handler A)
| AwaitInsert (f : Fields) (k : Id → Handler A)
| AwaitPatch (id : Id) (p : PatchFields) (k : Handler A)
| AwaitDelete (id : Id) (k : Handler A)
| AwaitQueryDescCollect (k : list Doc → Handler A).
Arguments Return {A} a.
Arguments Throw {A} msg.
Arguments AwaitGet {A} id k.
Arguments AwaitInsert {A} f k.
Arguments AwaitPatch {A} id p k.
Arguments AwaitDelete {A} id k.
Arguments AwaitQueryDescCollect {A} k.

(** The operations a handler performed on the store, in order. *)
Inductive DbOp : Type :=
| OpGet (id : Id)
| OpInsert (f : Fields)
| OpPatch (id : Id) (p : PatchFields)
| OpDelete (id : Id)
| OpQueryDescCollect.

Record Run (A : Type) : Type := mkRun {
  ops : list DbOp;
  final : Store;
  outcome : Outcome A
}.
Arguments mkRun {A} ops final outcome.
Arguments ops {A} r.
Arguments final {A} r.
Arguments outcome {A} r.

Definition performed {A} (op : DbOp) (r : Run A) : Run A :=
  mkRun (op :: ops r) (final r) (outcome r).

Fixpoint exec {A} (h : Handler A) (s : Store) : Run A :=
  match h with
  | Return a => mkRun [] s (Resolved a)
  | Throw msg => mkRun [] s (Rejected msg)
  | AwaitGet id k => performed (OpGet id) (exec (k (Db.get id s)) s)
  | AwaitInsert f k =>
      let '(id, s') := Db.insert f s in
      performed (OpInsert f) (exec (k id) s')
  | AwaitPatch id p k =>
      match Db.patch id p s with
      | Some s' => performed (OpPatch id p) (exec k s')
      | None => mkRun [OpPatch id p] s (Rejected "Update on nonexistent document")
      end
  | AwaitDelete id k =>
      match Db.delete id s with
      | Some s' => performed (OpDelete id) (exec k s')
      | None => mkRun [OpDelete id] s (Rejected "Delete on non-existent doc")
      end
  | AwaitQueryDescCollect k =>
      performed OpQueryDescCollect (exec (k (Db.query_desc_collect s)) s)
  end.

(** A function call is a transaction: what a handler wrote is kept only when
    it returns. *)
Definition commit {A} (h : Handler A) (s : Store) : Store * Outcome A :=
  let r := exec h s in
  match outcome r with
  | Resolved a => (final r, Resolved a)
  | Rejected msg => (s, Rejected msg)
  end.

(** [convex/todos.ts] *)
Module Todos.

Definition add (text : jsstring) : Handler unit :=
  AwaitInsert {| f_text := text; f_isCompleted := false |} (λ _, Return tt).

Definition toggle (id : Id) : Handler unit :=
  AwaitGet id (λ todo,
    match todo with
    | None => Throw "Todo not found"
    | Some todo =>
        AwaitPatch id
          {| p_text := None; p_isCompleted := Some (negb (isCompleted todo)) |}
          (Return tt)
    end).

Definition remove (id : Id) : Handler unit :=
  AwaitDelete id (Return tt).

Definition list : Handler (Datatypes.list Doc) :=
  AwaitQueryDescCollect (λ docs, Return docs).

End Todos.

(** ** The popup component, [src/App.tsx] *)

(** The three mutation functions [useMutation] gives the component. Calling
    one sends the call to the platform and gives back a promise. *)
Inductive Call : Type :=
| addTodo (text : jsstring)
| toggleTodo (id : Id)
| removeTodo (id : Id).

Definition handlerOf (c : Call) : Handler unit :=
  match c with
  | addTodo text => Todos.add text
  | toggleTodo id => Todos.toggle id
  | removeTodo id => Todos.remove id
  end.

(** What an event handler of the component does, statement by statement. *)
Inductive Effect : Type :=
| preventDefault
| mutate (c : Call)
| setInput (s : jsstring).

(** [todos] is [None] while [useQuery] has delivered nothing ([undefined]). *)
Record AppState : Type := mkApp {
  todos : option (list Doc);
  input : jsstring
}.

Definition handleSubmit (input : jsstring) : list Effect :=
  preventDefault ::
  let text := trim input in
  if negb (truthy text) then []
  else [mutate (addTodo text); setInput []].

(** [todos?.filter((t) => !t.isCompleted).length ?? 0] *)
Definition remaining (todos : option (list Doc)) : nat :=
  match todos with
  | Some ts => length (List.filter (λ t, negb (isCompleted t)) ts)
  | None => 0
  end.

(** One [<li>]: the checkbox, the text and the delete button. *)
Record ItemView : Type := mkItem {
  key : Id;
  checked : bool;
  onChange : list Effect;
  spanClass : string;
  label : jsstring;
  onClick : list Effect
}.

Definition renderItem (todo : Doc) : ItemView :=
  {| key := _id todo;
     checked := isCompleted todo;
     onChange := [mutate (toggleTodo (_id todo))];
     spanClass :=
       if isCompleted todo then "flex-1 text-sm line-through text-gray-400"
       else "flex-1 text-sm text-gray-800";
     label := text todo;
     onClick := [mutate (removeTodo (_id todo))] |}.

(** The children of the scrolling [<div>]: a paragraph or the [<ul>]. *)
Inductive ListArea : Type :=
| Paragraph (message : string)
| ItemList (items : list ItemView).

(** The footer's children: the count, [" item"], the suffix, [" remaining"]. *)
Record FooterView : Type := mkFooter {
  footerCount : nat;
  footerSuffix : string
}.

Record View : Type := mkView {
  submitDisabled : bool;
  listArea : ListArea;
  footer : option FooterView
}.

Definition App (st : AppState) : View :=
  let remaining := remaining (todos st) in
  {| submitDisabled := negb (truthy (trim (input st)));
     listArea :=
       match todos st with
       | None => Paragraph "Loading..."
       | Some ts =>
           if (length ts =? 0)%nat then Paragraph "No todos yet. Add one above!"
           else ItemList (renderItem <$> ts)
       end;
     footer :=
       match todos st with
       | None => None
       | Some ts =>
           if (0 <? length ts)%nat
           then Some {| footerCount := remaining;
                        footerSuffix := if negb (remaining =? 1)%nat then "s" else "" |}
           else None
       end |}.

(** The three states of the list area. *)
Definition showsLoading (v : View) : Prop := listArea v = Paragraph "Loading...".
Definition showsEmpty (v : View) : Prop :=
  listArea v = Paragraph "No todos yet. Add one above!".
Definition showsPopulated (v : View) : Prop := ∃ items, listArea v = ItemList items.

(** ** Popup and platform together

    A call the component issued travels to the platform and runs there
    later; the component does not wait for it. *)
Record World : Type := mkWorld {
  db : Store;
  app : AppState;
  inflight : list Call;
  settled : list (Call * Outcome unit)
}.

Definition perform (e : Effect) (w : World) : World :=
  match e with
  | preventDefault => w
  | mutate c =>
      {| db := db w; app := app w; inflight := inflight w ++ [c];
         settled := settled w |}
  | setInput s =>
      {| db := db w; app := {| todos := todos (app w); input := s |};
         inflight := inflight w; settled := settled w |}
  end.

Definition performAll (es : list Effect) (w : World) : World :=
  foldl (λ w e, perform e w) w es.

(** The user submits the form. *)
Definition submit (w : World) : World := performAll (handleSubmit (input (app w))) w.

(** The platform runs the oldest call in flight. *)
Definition deliver (w : World) : World :=
  match inflight w with
  | [] => w
  | c :: rest =>
      let '(s, o) := commit (handlerOf c) (db w) in
      {| db := s; app := app w; inflight := rest;
         settled := settled w ++ [(c, o)] |}
  end.

(** The subscription to [api.todos.list] delivers a result. *)
Definition push (w : World) : World :=
  match commit Todos.list (db w) with
  | (_, Resolved ts) =>
      {| db := db w; app := {| todos := Some ts; input := input (app w) |};
         inflight := inflight w; settled := settled w |}
  | (_, Rejected _) => w
  end.

(** The calls among the effects of an event handler. *)
Definition callsOf (es : list Effect) : list Call :=
  omap (λ e, match e with mutate c => Some c | _ => None end) es.

(** The number of records of a list whose completion flag is false, by
    recursion on the list as the specification words it. *)
Fixpoint countNotCompleted (ts : list Doc) : nat :=
  match ts with
  | [] => 0
  | t :: ts' =>
      if isCompleted t then countNotCompleted ts' else S (countNotCompleted ts')
  end.

(** [toggle] applied [n] times to the same identifier. *)
Definition toggleTimes (n : nat) (id : Id) (s : Store) : Store :=
  Nat.iter n (λ s, (commit (Todos.toggle id) s).1) s.

(** The platform runs a sequence of calls, one transaction each. *)
Fixpoint runCalls (cs : list Call) (s : Store) : Store * list (Outcome unit) :=
  match cs with
  | [] => (s, [])
  | c :: cs' =>
      let '(s1, o) := commit (handlerOf c) s in
      let '(s2, os) := runCalls cs' s1 in
      (s2, o :: os)
  end.

(** The user clicks the checkbox of a rendered record, and the platform runs
    what the click issued. [shown] is the snapshot the component rendered,
    which can be older than the store. *)
Definition clickCheckbox (shown : Doc) (s : Store) : Store * list (Outcome unit) :=
  runCalls (callsOf (onChange (renderItem shown))) s.

Definition emptyStore : Store := {| todos_table := ∅; clock := 0%N |}.

Definition buyMilk : Doc := mkDoc 0%N 0%N (lit "Buy milk") false.

Definition oneTodoStore : Store :=
  {| todos_table := {[ 0%N := buyMilk ]}; clock := 1%N |}.

(** The record as [toggle] leaves it. *)
Definition flipped (d : Doc) : Doc :=
  mkDoc (_id d) (_creationTime d) (text d) (negb (isCompleted d)).

Definition newest_first_by_time (a b : Doc) : Prop :=
  (_creationTime b <= _creationTime a)%N.

(** ** The remaining controls and the store's invariant *)

(** [onChange={(e) => setInput(e.target.value)}] of the text field. *)
Definition inputOnChange (value : jsstring) : list Effect := [setInput value].

(** The user replaces the content of the text field by [value]. *)
Definition typeText (value : jsstring) (w : World) : World :=
  performAll (inputOnChange value) w.

(** The user clicks the delete button of a rendered record, and the platform
    runs what the click issued. *)
Definition clickDelete (shown : Doc) (s : Store) : Store * list (Outcome unit) :=
  runCalls (callsOf (onClick (renderItem shown))) s.

(** The check boxes of the view that are not checked. *)
Definition uncheckedBoxes (v : View) : nat :=
  match listArea v with
  | ItemList items => length (List.filter (λ i, negb (checked i)) items)
  | Paragraph _ => 0
  end.

(** The list [api.todos.list] delivers for a store. *)
Definition snapshot (s : Store) : list Doc :=
  match commit Todos.list s with
  | (_, Resolved ts) => ts
  | (_, Rejected _) => []
  end.

(** A store as the platform keeps it: every document is filed under its own
    identifier and was created before the clock's present value. *)
Definition wfStore (s : Store) : Prop :=
  map_Forall (λ id d, _id d = id ∧ (_creationTime d < clock s)%N) (todos_table s).

(** A list entry after [toggle id]: flipped when it is the record [id]. *)
Definition flipAt (id : Id) (d : Doc) : Doc :=
  if decide (_id d = id) then flipped d else d.

(** * Properties *)

(** ** Trimming *)

Section Trim.

Implicit Types s : jsstring.

Lemma trimStart_nil_iff s : trimStart s = [] ↔ whitespaceOnly s.
Proof.
  unfold whitespaceOnly. induction s as [|c s IH]; simpl.
  - split; [constructor | done].
  - destruct (isWhiteSpace c) eqn:Hc.
    + rewrite IH. split; [by constructor | by inversion 1].
    + split; [done | inversion 1; congruence].
Qed.

Lemma trimStart_head s c s' : trimStart s = c :: s' → isWhiteSpace c = false.
Proof.
  induction s as [|a s IH]; simpl; [done|].
  destruct (isWhiteSpace a) eqn:Ha; [done | congruence].
Qed.

Lemma trimEnd_nil_iff s : trimEnd s = [] ↔ whitespaceOnly s.
Proof.
  unfold trimEnd, whitespaceOnly.
  rewrite <- (Forall_reverse _ s), <- (trimStart_nil_iff (reverse s)).
  split; intros H.
  - apply (f_equal reverse) in H. by rewrite reverse_involutive in H.
  - by rewrite H.
Qed.

Lemma trim_nil_iff s : trim s = [] ↔ whitespaceOnly s.
Proof.
  unfold trim. rewrite trimEnd_nil_iff. split.
  - intros H. apply trimStart_nil_iff.
    destruct (trimStart s) as [|c s'] eqn:E; [done|].
    apply trimStart_head in E. inversion H; congruence.
  - intros H. apply trimStart_nil_iff in H. rewrite H. constructor.
Qed.

Lemma truthy_false_iff s : truthy s = false ↔ s = [].
Proof. by destruct s. Qed.

End Trim.

(** ** The form *)

Example trim_buy_milk : trim (lit "  Buy milk	 ") = lit "Buy milk".
Proof. reflexivity. Qed.

Example trim_inner_space_kept : trim (lit " a b ") = lit "a b".
Proof. reflexivity. Qed.

(** The scenario of the specification: on an empty database the user adds
    "Buy milk"; once the platform has run the call and the subscription has
    delivered, the list shows one unchecked item and the footer
    "1 item remaining". *)
Example scenario_add_buy_milk :
  let w0 := {| db := emptyStore;
               app := {| todos := Some []; input := lit "Buy milk" |};
               inflight := []; settled := [] |} in
  App (app (push (deliver (submit w0))))
  = {| submitDisabled := true;
       listArea := ItemList [renderItem buyMilk];
       footer := Some {| footerCount := 1; footerSuffix := "" |} |}.
Proof. vm_compute. reflexivity. Qed.

(** The same record toggled: nothing remains, and the suffix is plural. *)
Example scenario_toggle_buy_milk :
  let w0 := {| db := oneTodoStore;
               app := {| todos := Some [buyMilk]; input := [] |};
               inflight := []; settled := [] |} in
  footer (App (app (push (deliver
            (performAll (onChange (renderItem buyMilk)) w0)))))
  = Some {| footerCount := 0; footerSuffix := "s" |}.
Proof. vm_compute. reflexivity. Qed.

Lemma handleSubmit_blank i :
  trim i = [] → handleSubmit i = [preventDefault].
Proof. unfold handleSubmit. by intros ->. Qed.

Lemma handleSubmit_text i :
  trim i ≠ [] →
  handleSubmit i = [preventDefault; mutate (addTodo (trim i)); setInput []].
Proof. unfold handleSubmit. by destruct (trim i). Qed.

(** What [add] does to a store: one document more, under an identifier that
    was free, with the text given and the completion flag false. *)
Lemma add_commit t s :
  let id := fresh (dom (todos_table s)) in
  todos_table s !! id = None
  ∧ commit (Todos.add t) s =
      ({| todos_table := <[id := mkDoc id (clock s) t false]> (todos_table s);
          clock := N.succ (clock s) |}, Resolved tt).
Proof.
  simpl. split; [|done].
  apply not_elem_of_dom, is_fresh.
Qed.

(** C1: when the input is non-empty after trimming, submitting the form
    issues exactly one call, [addTodo] with the trimmed string; the input
    buffer is empty as soon as the handler has run, while the call is still
    in flight and the store untouched; and the call, once the platform runs
    it, adds exactly one record, whose text is the trimmed input and whose
    completion flag is false. *)
Theorem submit_adds_trimmed (w : World) :
  trim (input (app w)) ≠ [] →
  let t := trim (input (app w)) in
  callsOf (handleSubmit (input (app w))) = [addTodo t]
  ∧ submit w =
      {| db := db w;
         app := {| todos := todos (app w); input := [] |};
         inflight := inflight w ++ [addTodo t];
         settled := settled w |}
  ∧ ∀ s : Store, ∃ (id : Id) (d : Doc),
      todos_table s !! id = None
      ∧ commit (handlerOf (addTodo t)) s =
          ({| todos_table := <[id := d]> (todos_table s);
              clock := N.succ (clock s) |}, Resolved tt)
      ∧ _id d = id ∧ text d = t ∧ isCompleted d = false.
Proof.
  intros Ht t. unfold submit. rewrite (handleSubmit_text _ Ht).
  split; [done|]. split; [done|].
  intros s. destruct (add_commit t s) as [Hfree Hc].
  eexists _, _. split; [exact Hfree|]. split; [exact Hc|]. done.
Qed.

Lemma submit_adds_trimmed_witness :
  let w := {| db := emptyStore;
              app := {| todos := Some []; input := lit "  Buy milk " |};
              inflight := []; settled := [] |} in
  trim (input (app w)) ≠ []
  ∧ submit w =
      {| db := emptyStore;
         app := {| todos := Some []; input := [] |};
         inflight := [addTodo (lit "Buy milk")]; settled := [] |}.
Proof.
  intros w.
  assert (H : trim (input (app w)) ≠ []) by (vm_compute; discriminate).
  split; [exact H|].
  exact (proj1 (proj2 (submit_adds_trimmed w H))).
Defined.

(** C7: when the input is empty or holds only whitespace, submitting the
    form issues no call, and neither the store nor the calls in flight
    change, so no record is created. *)
Theorem submit_blank_noop (w : World) :
  whitespaceOnly (input (app w)) →
  callsOf (handleSubmit (input (app w))) = [] ∧ submit w = w.
Proof.
  intros H. apply trim_nil_iff in H. unfold submit.
  by rewrite (handleSubmit_blank _ H).
Qed.

Lemma submit_blank_noop_witness :
  let w := {| db := emptyStore;
              app := {| todos := None; input := lit " 	  " |};
              inflight := []; settled := [] |} in
  callsOf (handleSubmit (input (app w))) = [] ∧ submit w = w.
Proof.
  intros w. apply (submit_blank_noop w).
  unfold whitespaceOnly. vm_compute. repeat constructor.
Defined.

(** ** The counter and the three states *)

Lemma filter_not_completed_length (ts : list Doc) :
  length (List.filter (λ t, negb (isCompleted t)) ts) = countNotCompleted ts.
Proof.
  induction ts as [|t ts IH]; simpl; [done|].
  destruct (isCompleted t); simpl; by rewrite IH.
Qed.

(** C4: for every delivered list, the empty one included, [remaining] is the
    number of its records whose completion flag is false; completed and
    remaining records together are the whole list. *)
Theorem remaining_counts_not_completed (ts : list Doc) :
  remaining (Some ts) = countNotCompleted ts
  ∧ remaining (Some ts) + length (List.filter isCompleted ts) = length ts
  ∧ remaining (Some []) = 0.
Proof.
  split; [apply filter_not_completed_length|]. split; [|done].
  simpl. induction ts as [|t ts IH]; simpl; [done|].
  destruct (isCompleted t); simpl; lia.
Qed.

(** C8: the list area is in exactly one of three states. It shows the loading
    paragraph exactly when nothing was delivered yet; the paragraph
    "No todos yet. Add one above!" exactly when the delivered list is empty,
    and then there is no footer; the item list, one item per record in
    order, exactly when the delivered list has a record, and then the footer
    is there with the remaining count. *)
Theorem list_area_three_states (st : AppState) :
  match todos st with
  | None =>
      showsLoading (App st) ∧ ¬ showsEmpty (App st) ∧ ¬ showsPopulated (App st)
      ∧ footer (App st) = None
  | Some [] =>
      showsEmpty (App st) ∧ ¬ showsLoading (App st) ∧ ¬ showsPopulated (App st)
      ∧ footer (App st) = None
  | Some (t :: ts) =>
      listArea (App st) = ItemList (renderItem <$> t :: ts)
      ∧ showsPopulated (App st) ∧ ¬ showsLoading (App st) ∧ ¬ showsEmpty (App st)
      ∧ ∃ f, footer (App st) = Some f
             ∧ footerCount f = countNotCompleted (t :: ts)
  end.
Proof.
  unfold showsLoading, showsEmpty, showsPopulated, App.
  destruct (todos st) as [[|t ts]|] eqn:E; simpl.
  - repeat split; [done | by intros [? ?]].
  - split; [done|]. split; [by eexists|]. repeat split; try done.
    eexists. split; [done|]. apply (filter_not_completed_length (t :: ts)).
  - repeat split; [done | by intros [? ?]].
Qed.

(** ** The backend functions *)

Lemma toggle_exec_some id s d :
  todos_table s !! id = Some d →
  exec (Todos.toggle id) s =
    mkRun [OpGet id;
           OpPatch id {| p_text := None; p_isCompleted := Some (negb (isCompleted d)) |}]
          {| todos_table := <[id := flipped d]> (todos_table s); clock := clock s |}
          (Resolved tt).
Proof.
  intros H. unfold Todos.toggle. simpl. unfold Db.get, Db.patch.
  rewrite H. simpl. unfold Db.patch. by rewrite H.
Qed.

Lemma toggle_exec_none id s :
  todos_table s !! id = None →
  exec (Todos.toggle id) s = mkRun [OpGet id] s (Rejected "Todo not found").
Proof.
  intros H. unfold Todos.toggle. simpl. unfold Db.get. by rewrite H.
Qed.

Lemma toggle_commit_some id s d :
  todos_table s !! id = Some d →
  commit (Todos.toggle id) s =
    ({| todos_table := <[id := flipped d]> (todos_table s); clock := clock s |},
     Resolved tt).
Proof. intros H. unfold commit. by rewrite (toggle_exec_some _ _ _ H). Qed.

Lemma toggle_commit_none id s :
  todos_table s !! id = None →
  commit (Todos.toggle id) s = (s, Rejected "Todo not found").
Proof. intros H. unfold commit. by rewrite (toggle_exec_none _ _ H). Qed.

(** C2: [toggle] is rejected with "Todo not found" exactly when the store has
    no record with the identifier, and then the store is unchanged; when the
    record exists the call resolves, and the store holds the record with its
    completion flag negated and everything else as it was. *)
Theorem toggle_not_found_iff_missing (id : Id) (s : Store) :
  ((commit (Todos.toggle id) s).2 = Rejected "Todo not found"
   ↔ todos_table s !! id = None)
  ∧ match todos_table s !! id with
    | None => commit (Todos.toggle id) s = (s, Rejected "Todo not found")
    | Some d =>
        commit (Todos.toggle id) s =
          ({| todos_table := <[id := flipped d]> (todos_table s);
              clock := clock s |}, Resolved tt)
        ∧ Db.get id (commit (Todos.toggle id) s).1 = Some (flipped d)
        ∧ isCompleted (flipped d) = negb (isCompleted d)
    end.
Proof.
  destruct (todos_table s !! id) as [d|] eqn:E.
  - rewrite (toggle_commit_some _ _ _ E). simpl. split; [split; done|].
    split; [done|]. split; [|done].
    unfold Db.get. simpl. apply lookup_insert_eq.
  - rewrite (toggle_commit_none _ _ E). by split.
Qed.

Lemma remove_exec_some id s d :
  todos_table s !! id = Some d →
  exec (Todos.remove id) s =
    mkRun [OpDelete id]
          {| todos_table := delete id (todos_table s); clock := clock s |}
          (Resolved tt).
Proof. intros H. unfold Todos.remove. simpl. unfold Db.delete. by rewrite H. Qed.

Lemma remove_exec_none id s :
  todos_table s !! id = None →
  exec (Todos.remove id) s =
    mkRun [OpDelete id] s (Rejected "Delete on non-existent doc").
Proof. intros H. unfold Todos.remove. simpl. unfold Db.delete. by rewrite H. Qed.

(** The store after [remove], whether the call resolved or was rejected. *)
Lemma remove_store id s :
  (commit (Todos.remove id) s).1
  = {| todos_table := delete id (todos_table s); clock := clock s |}.
Proof.
  unfold commit. destruct (todos_table s !! id) as [d|] eqn:E.
  - by rewrite (remove_exec_some _ _ _ E).
  - rewrite (remove_exec_none _ _ E). simpl. rewrite (delete_id _ _ E).
    by destruct s.
Qed.



(** *** Listing *)

#[local] Instance newer_first_total : Total newer_first.
Proof. intros a b. unfold newer_first. lia. Qed.

#[local] Instance newer_first_trans : Transitive newer_first.
Proof. intros a b c. unfold newer_first. lia. Qed.

Lemma newer_first_by_time a b : newer_first a b → newest_first_by_time a b.
Proof. unfold newer_first, newest_first_by_time. lia. Qed.

Lemma StronglySorted_weaken {A} (R1 R2 : relation A) (l : list A) :
  (∀ a b, R1 a b → R2 a b) → StronglySorted R1 l → StronglySorted R2 l.
Proof.
  intros HR. induction 1 as [|a l _ IH Hall]; constructor; [done|].
  eapply Forall_impl; [exact Hall|]. intros b. apply HR.
Qed.

Lemma query_desc_collect_elem (s : Store) (d : Doc) :
  d ∈ Db.query_desc_collect s ↔ ∃ id, todos_table s !! id = Some d.
Proof.
  unfold Db.query_desc_collect. rewrite merge_sort_Permutation.
  rewrite list_elem_of_fmap. split.
  - intros [[id d'] [-> Hin]]. exists id. by apply elem_of_map_to_list.
  - intros [id Hid]. exists (id, d). split; [done|]. by apply elem_of_map_to_list.
Qed.

(** C5: [list] takes no argument, reads the store without changing it and
    resolves with every record of the table, each stored entry once, in
    descending order of creation time. *)
Theorem list_all_newest_first (s : Store) :
  ∃ ts : list Doc,
    commit Todos.list s = (s, Resolved ts)
    ∧ ts ≡ₚ (map_to_list (todos_table s)).*2
    ∧ length ts = size (todos_table s)
    ∧ (∀ d, d ∈ ts ↔ ∃ id, todos_table s !! id = Some d)
    ∧ StronglySorted newest_first_by_time ts.
Proof.
  exists (Db.query_desc_collect s). split; [done|]. split; [|split; [|split]].
  - apply merge_sort_Permutation.
  - unfold Db.query_desc_collect.
    by rewrite merge_sort_Permutation, length_fmap, length_map_to_list.
  - apply query_desc_collect_elem.
  - eapply StronglySorted_weaken; [apply newer_first_by_time|].
    apply StronglySorted_merge_sort; apply _.
Qed.

(** *** Toggling repeatedly *)

Lemma toggleTimes_lookup n id s d :
  todos_table s !! id = Some d →
  todos_table (toggleTimes n id s) !! id
  = Some (if Nat.even n then d else flipped d).
Proof.
  intros H. induction n as [|n IH].
  - done.
  - unfold toggleTimes in *. rewrite Nat.iter_succ.
    rewrite (toggle_commit_some _ _ _ IH). cbn [fst todos_table].
    rewrite lookup_insert_eq, Nat.even_succ, <- Nat.negb_even.
    destruct (Nat.even n); simpl; [done|].
    unfold flipped. simpl. rewrite negb_involutive. by destruct d.
Qed.

(** C6: for a record that exists, [toggle] applied an even number of times
    leaves its completion flag as it was, and applied an odd number of times
    leaves it negated. *)
Theorem toggle_parity (n : nat) (id : Id) (s : Store) (d : Doc) :
  todos_table s !! id = Some d →
  isCompleted <$> todos_table (toggleTimes n id s) !! id
  = Some (if Nat.even n then isCompleted d else negb (isCompleted d)).
Proof.
  intros H. rewrite (toggleTimes_lookup n _ _ _ H).
  by destruct (Nat.even n).
Qed.

Lemma toggle_parity_witness :
  todos_table oneTodoStore !! 0%N = Some buyMilk
  ∧ isCompleted <$> todos_table (toggleTimes 3 0%N oneTodoStore) !! 0%N
    = Some true.
Proof.
  split; [reflexivity|].
  apply (toggle_parity 3 0%N oneTodoStore buyMilk). reflexivity.
Defined.

(** *** Creating records *)

(** Against C9 as stated: [add] stores the empty string when it is given the
    empty string; on the empty store, [add] of the empty text creates a
    record whose text is empty. *)
Lemma add_stores_empty_text :
  ¬ (∀ (t : jsstring) (s : Store) (id : Id) (d : Doc),
       todos_table s !! id = None →
       todos_table (commit (Todos.add t) s).1 !! id = Some d →
       text d ≠ [] ∧ isCompleted d = false).
Proof.
  intros H.
  destruct (H [] emptyStore 0%N (mkDoc 0%N 0%N [] false)) as [Hne _];
    [reflexivity | reflexivity |].
  by apply Hne.
Qed.

(** C9, amended: every record [add] creates has the text that was passed,
    whatever it is, and the completion flag false; and every call the form
    issues is an [addTodo] with a non-empty text, the trimmed input. *)
Theorem add_stores_argument_form_sends_text (t input : jsstring) (s : Store) :
  (∃ (id : Id) (d : Doc),
      todos_table s !! id = None
      ∧ commit (Todos.add t) s =
          ({| todos_table := <[id := d]> (todos_table s);
              clock := N.succ (clock s) |}, Resolved tt)
      ∧ text d = t ∧ isCompleted d = false)
  ∧ Forall (λ c, c = addTodo (trim input) ∧ trim input ≠ [])
           (callsOf (handleSubmit input)).
Proof.
  split.
  - destruct (add_commit t s) as [Hfree Hc].
    eexists _, _. split; [exact Hfree|]. split; [exact Hc|]. done.
  - destruct (trim input) as [|c r] eqn:E.
    + rewrite (handleSubmit_blank _ E). constructor.
    + assert (Hne : trim input ≠ []) by by rewrite E.
      rewrite (handleSubmit_text _ Hne), E. repeat constructor. done.
Qed.

(** *** The checkbox *)

(** C10: clicking the checkbox of a rendered record issues [toggleTodo] with
    the record's identifier and nothing else, so two snapshots of the same
    record, whatever they show, lead to the same store and the same outcome;
    the flag written is the negation of the one in the store. *)
Theorem toggle_ignores_rendered_state (shown1 shown2 : Doc) (s : Store) :
  _id shown1 = _id shown2 →
  callsOf (onChange (renderItem shown1)) = [toggleTodo (_id shown1)]
  ∧ clickCheckbox shown1 s = clickCheckbox shown2 s
  ∧ match todos_table s !! _id shown1 with
    | Some d =>
        clickCheckbox shown1 s =
          ({| todos_table := <[_id shown1 := flipped d]> (todos_table s);
              clock := clock s |}, [Resolved tt])
    | None => clickCheckbox shown1 s = (s, [Rejected "Todo not found"])
    end.
Proof.
  intros Hid. split; [done|]. split.
  - unfold clickCheckbox, renderItem. simpl. by rewrite Hid.
  - unfold clickCheckbox, renderItem. simpl.
    destruct (todos_table s !! _id shown1) as [d|] eqn:E.
    + by rewrite (toggle_commit_some _ _ _ E).
    + by rewrite (toggle_commit_none _ _ E).
Qed.

Lemma toggle_ignores_rendered_state_witness :
  _id buyMilk = _id (flipped buyMilk)
  ∧ clickCheckbox buyMilk oneTodoStore
    = clickCheckbox (flipped buyMilk) oneTodoStore.
Proof.
  split; [reflexivity|].
  apply (toggle_ignores_rendered_state buyMilk (flipped buyMilk) oneTodoStore).
  reflexivity.
Defined.

(** * Further properties of the component *)

(** ** The form and its button *)

(** X1: submitting twice in a row is submitting once: the first submit leaves
    the buffer empty, so the second issues nothing. *)
Theorem submit_twice_once (w : World) : submit (submit w) = submit w.
Proof.
  destruct (trim (input (app w))) as [|c r] eqn:E.
  - unfold submit at 2 3. rewrite (handleSubmit_blank _ E). simpl.
    unfold submit. by rewrite (handleSubmit_blank _ E).
  - assert (Hne : trim (input (app w)) ≠ []) by by rewrite E.
    unfold submit at 2 3. rewrite (handleSubmit_text _ Hne). simpl.
    reflexivity.
Qed.

(** X2: the Add button is disabled exactly when the buffer holds only whitespace,
    which is exactly when submitting would issue no call. *)
Theorem submit_button_disabled_iff (st : AppState) :
  (submitDisabled (App st) = true ↔ whitespaceOnly (input st))
  ∧ (submitDisabled (App st) = true ↔ callsOf (handleSubmit (input st)) = []).
Proof.
  unfold App. simpl. rewrite <- trim_nil_iff. unfold handleSubmit.
  destruct (trim (input st)) as [|c r]; simpl; split; split; done.
Qed.

Lemma trimStart_split (s : jsstring) :
  ∃ pre, s = pre ++ trimStart s ∧ whitespaceOnly pre.
Proof.
  induction s as [|c s [pre [Hs Hpre]]]; simpl.
  - exists []. split; [done | constructor].
  - destruct (isWhiteSpace c) eqn:Hc.
    + exists (c :: pre). split; [by rewrite Hs at 1 | by constructor].
    + exists []. split; [done | constructor].
Qed.

Lemma trimEnd_split (s : jsstring) :
  ∃ post, s = trimEnd s ++ post ∧ whitespaceOnly post.
Proof.
  destruct (trimStart_split (reverse s)) as [pre [Hs Hpre]].
  exists (reverse pre). split.
  - unfold trimEnd. rewrite <- reverse_app, <- Hs. by rewrite reverse_involutive.
  - by apply Forall_reverse.
Qed.

Lemma trimEnd_last (s : jsstring) (c : N) :
  last (trimEnd s) = Some c → isWhiteSpace c = false.
Proof.
  unfold trimEnd. rewrite last_reverse.
  destruct (trimStart (reverse s)) as [|a r] eqn:E; [done|].
  simpl. intros [= <-]. by apply trimStart_head in E.
Qed.

Lemma trim_head (s : jsstring) (c : N) :
  head (trim s) = Some c → isWhiteSpace c = false.
Proof.
  unfold trim. destruct (trimEnd_split (trimStart s)) as [post [Hs _]].
  destruct (trimEnd (trimStart s)) as [|a r]; [done|].
  simpl. intros [= <-]. simpl in Hs. by apply trimStart_head in Hs.
Qed.

(** X3: the text the form sends is the input without the whitespace around it:
    every call [handleSubmit] issues is an [addTodo] whose text, put between
    a whitespace-only prefix and a whitespace-only suffix, gives the input
    back, and whose first and last characters are not whitespace. *)
Theorem submitted_text_is_input_core (i : jsstring) :
  Forall (λ c, ∃ t pre post,
            c = addTodo t
            ∧ i = pre ++ t ++ post
            ∧ whitespaceOnly pre ∧ whitespaceOnly post
            ∧ (∃ a, head t = Some a ∧ isWhiteSpace a = false)
            ∧ (∃ z, last t = Some z ∧ isWhiteSpace z = false))
         (callsOf (handleSubmit i)).
Proof.
  destruct (trim i) as [|a r] eqn:E.
  - rewrite (handleSubmit_blank _ E). constructor.
  - assert (Hne : trim i ≠ []) by by rewrite E.
    rewrite (handleSubmit_text _ Hne). simpl. constructor; [|constructor].
    destruct (trimStart_split i) as [pre [Hi Hpre]].
    destruct (trimEnd_split (trimStart i)) as [post [Hs Hpost]].
    exists (trim i), pre, post. split; [done|]. split.
    { unfold trim. by rewrite <- Hs. }
    split; [done|]. split; [done|]. split.
    + exists a. split; [by rewrite E|]. apply (trim_head i). by rewrite E.
    + destruct (last (trim i)) as [z|] eqn:El.
      * exists z. split; [done|]. by apply (trimEnd_last (trimStart i)).
      * apply last_None in El. congruence.
Qed.

(** ** The footer *)

Lemma unchecked_renderItem (ts : list Doc) :
  length (List.filter (λ i, negb (checked i)) (renderItem <$> ts))
  = length (List.filter (λ t, negb (isCompleted t)) ts).
Proof.
  induction ts as [|t ts IH]; [done|].
  cbn. destruct (isCompleted t); simpl; by rewrite IH.
Qed.

(** X5: when the footer is shown, its count is the number of unchecked boxes in
    the list above it, the suffix is empty exactly for a count of one, and
    the count is zero exactly when every record shown is completed; when no
    footer is shown there is no unchecked box. *)
Theorem footer_counts_unchecked_boxes (st : AppState) :
  match footer (App st) with
  | Some f =>
      footerCount f = uncheckedBoxes (App st)
      ∧ (footerSuffix f = "" ↔ footerCount f = 1)
      ∧ (footerSuffix f = "s" ↔ footerCount f ≠ 1)
      ∧ (footerCount f = 0
         ↔ ∃ ts, todos st = Some ts ∧ Forall (λ t, isCompleted t = true) ts)
  | None => uncheckedBoxes (App st) = 0
  end.
Proof.
  unfold App, uncheckedBoxes. cbn [footer listArea].
  destruct (todos st) as [l|] eqn:E; [|done].
  destruct (decide (length l = 0)) as [H0|H0].
  { by destruct l. }
  rewrite (proj2 (Nat.eqb_neq _ _) H0).
  rewrite (proj2 (Nat.ltb_lt 0 (length l))) by lia.
  cbn [footerCount footerSuffix remaining].
  rewrite unchecked_renderItem. split; [done|].
  generalize l. clear. intros l.
  split; [|split].
  - destruct (length _ =? 1) eqn:En; simpl.
    + apply Nat.eqb_eq in En. by split.
    + apply Nat.eqb_neq in En. by split.
  - destruct (length _ =? 1) eqn:En; simpl.
    + apply Nat.eqb_eq in En. by split.
    + apply Nat.eqb_neq in En. by split.
  - split.
    + intros H. exists l. split; [done|].
      induction l as [|a l IH]; [constructor|].
      simpl in H. destruct (isCompleted a) eqn:Ea; simpl in H; [|done].
      constructor; auto.
    + intros [ts [[= <-] H]].
      induction H as [|a l Ha _ IH]; [done|]. simpl. by rewrite Ha.
Qed.

(** * Further properties of the backend functions *)

(** ** The invariant of the store *)

Lemma wfStore_lookup s id d :
  wfStore s → todos_table s !! id = Some d →
  _id d = id ∧ (_creationTime d < clock s)%N.
Proof. intros Hwf Hd. exact (map_Forall_lookup_1 _ _ _ _ Hwf Hd). Qed.

Lemma wfStore_add t s : wfStore s → wfStore (commit (Todos.add t) s).1.
Proof.
  intros Hwf. destruct (add_commit t s) as [_ ->]. unfold wfStore. simpl.
  apply map_Forall_insert_2; [simpl; split; [done|lia]|].
  eapply map_Forall_impl; [exact Hwf|]. simpl. intros ? ? [? ?]. split; [done|lia].
Qed.

Lemma wfStore_toggle id s : wfStore s → wfStore (commit (Todos.toggle id) s).1.
Proof.
  intros Hwf. destruct (todos_table s !! id) as [d|] eqn:E.
  - rewrite (toggle_commit_some _ _ _ E). unfold wfStore. simpl.
    apply map_Forall_insert_2; [|exact Hwf].
    exact (wfStore_lookup _ _ _ Hwf E).
  - by rewrite (toggle_commit_none _ _ E).
Qed.

Lemma wfStore_remove id s : wfStore s → wfStore (commit (Todos.remove id) s).1.
Proof.
  intros Hwf. rewrite remove_store. unfold wfStore. simpl.
  by apply map_Forall_delete.
Qed.

Lemma wfStore_call c s : wfStore s → wfStore (commit (handlerOf c) s).1.
Proof.
  intros Hwf. destruct c; simpl.
  - by apply wfStore_add.
  - by apply wfStore_toggle.
  - by apply wfStore_remove.
Qed.

(** X6: whatever calls the platform runs, in whatever order, a store that files
    every document under its own identifier, with a creation time before the
    clock, stays so. *)
Theorem calls_keep_store_wellformed (cs : list Call) (s : Store) :
  wfStore s → wfStore (runCalls cs s).1.
Proof.
  revert s. induction cs as [|c cs IH]; intros s Hwf; [done|].
  simpl. pose proof (wfStore_call c s Hwf) as H1.
  destruct (commit (handlerOf c) s) as [s1 o]. simpl in H1.
  specialize (IH s1 H1). by destruct (runCalls cs s1).
Qed.

Lemma calls_keep_store_wellformed_witness :
  wfStore emptyStore
  ∧ wfStore (runCalls [addTodo (lit "Buy milk"); toggleTodo 0%N;
                       addTodo (lit "Walk"); removeTodo 0%N] emptyStore).1.
Proof.
  assert (H : wfStore emptyStore) by apply map_Forall_empty.
  split; [exact H|]. exact (calls_keep_store_wellformed _ emptyStore H).
Defined.

(** ** What the subscription delivers after a call *)

Lemma snapshot_sorted s : StronglySorted newer_first (snapshot s).
Proof. apply StronglySorted_merge_sort; apply _. Qed.

Lemma snapshot_perm s : snapshot s ≡ₚ (map_to_list (todos_table s)).*2.
Proof. apply merge_sort_Permutation. Qed.

Lemma snapshot_elem s d :
  d ∈ snapshot s ↔ ∃ id, todos_table s !! id = Some d.
Proof. apply query_desc_collect_elem. Qed.

Lemma snapshot_elem_wf s d :
  wfStore s → d ∈ snapshot s → todos_table s !! _id d = Some d.
Proof.
  intros Hwf [id Hid]%snapshot_elem.
  destruct (wfStore_lookup _ _ _ Hwf Hid) as [<- _]. done.
Qed.

(** In a well-formed store the order of the index leaves no choice. *)
Lemma snapshot_unique s (l : list Doc) :
  wfStore s → StronglySorted newer_first l →
  l ≡ₚ (map_to_list (todos_table s)).*2 → l = snapshot s.
Proof.
  intros Hwf Hl Hp.
  apply (StronglySorted_unique_strong newer_first); [|done|apply snapshot_sorted|].
  - intros x1 x2 H1 H2 R12 R21.
    rewrite Hp, <- snapshot_perm in H1.
    apply (snapshot_elem_wf _ _ Hwf) in H1, H2.
    assert (_id x1 = _id x2) as Hid by (unfold newer_first in *; lia).
    rewrite Hid in H1. congruence.
  - by rewrite snapshot_perm.
Qed.

Lemma snapshot_ids s :
  wfStore s → _id <$> snapshot s ≡ₚ (map_to_list (todos_table s)).*1.
Proof.
  intros Hwf. rewrite snapshot_perm, <- list_fmap_compose.
  assert (E : _id ∘ snd <$> map_to_list (todos_table s)
              = (map_to_list (todos_table s)).*1); [|by rewrite E].
  apply Forall_fmap_ext, Forall_forall.
  intros [k d] Hin%elem_of_map_to_list. simpl.
  by destruct (wfStore_lookup _ _ _ Hwf Hin).
Qed.

(** X7: the keys React is given are pairwise distinct: for a well-formed store,
    the records delivered have distinct identifiers, and so have the items
    rendered from them. *)
Theorem rendered_keys_distinct (w : World) :
  wfStore (db w) →
  NoDup (_id <$> snapshot (db w))
  ∧ match listArea (App (app (push w))) with
    | ItemList items =>
        key <$> items = _id <$> snapshot (db w) ∧ NoDup (key <$> items)
    | Paragraph _ => snapshot (db w) = []
    end.
Proof.
  intros Hwf.
  assert (Hnd : NoDup (_id <$> snapshot (db w))).
  { rewrite (snapshot_ids _ Hwf). apply NoDup_fst_map_to_list. }
  split; [done|].
  unfold push, App. simpl.
  change (Db.query_desc_collect (db w)) with (snapshot (db w)).
  destruct (snapshot (db w)) as [|t ts]; [done|].
  assert (E : key <$> (renderItem <$> t :: ts) = _id <$> t :: ts).
  { rewrite <- list_fmap_compose. done. }
  simpl in *. by rewrite E.
Qed.

Lemma rendered_keys_distinct_witness :
  let w := {| db := (runCalls [addTodo (lit "Buy milk"); addTodo (lit "Walk");
                               addTodo (lit "Read")] emptyStore).1;
              app := {| todos := None; input := [] |};
              inflight := []; settled := [] |} in
  wfStore (db w)
  ∧ length (snapshot (db w)) = 3
  ∧ NoDup (_id <$> snapshot (db w)).
Proof.
  intros w.
  assert (H : wfStore (db w)).
  { unfold wfStore. apply (bool_decide_unpack _). vm_compute. exact I. }
  split; [exact H|]. split; [vm_compute; reflexivity|].
  exact (proj1 (rendered_keys_distinct w H)).
Defined.

Lemma StronglySorted_filter_keep {A} (R : relation A) (P : A → Prop)
    `{∀ x, Decision (P x)} (l : list A) :
  StronglySorted R l → StronglySorted R (filter P l).
Proof.
  induction 1 as [|a l _ IH Hall]; [constructor|].
  destruct (decide (P a)).
  - rewrite filter_cons_True by done. constructor; [done|].
    apply Forall_forall. intros x [_ Hx]%list_elem_of_filter.
    by apply (proj1 (Forall_forall _ _) Hall).
  - by rewrite filter_cons_False.
Qed.

Lemma add_snapshot (t : jsstring) (s : Store) :
  wfStore s →
  snapshot (commit (Todos.add t) s).1
  = mkDoc (fresh (dom (todos_table s))) (clock s) t false :: snapshot s.
Proof.
  intros Hwf. pose proof (wfStore_add t s Hwf) as Hwf'.
  destruct (add_commit t s) as [Hfree Hc]. rewrite Hc in *. simpl in *.
  symmetry. apply snapshot_unique; [done| |].
  - constructor; [apply snapshot_sorted|].
    apply Forall_forall. intros x Hx%(snapshot_elem_wf _ _ Hwf).
    destruct (wfStore_lookup _ _ _ Hwf Hx) as [_ Hlt].
    left. simpl. exact Hlt.
  - simpl. rewrite (map_to_list_insert _ _ _ Hfree). simpl.
    by rewrite snapshot_perm.
Qed.

(** X8: a record just added stands first in the next list delivered, before the
    records that were there, which keep their order; its text is the one
    passed and it is not completed. *)
Theorem added_todo_comes_first (t : jsstring) (s : Store) :
  wfStore s →
  ∃ d, snapshot (commit (Todos.add t) s).1 = d :: snapshot s
       ∧ text d = t ∧ isCompleted d = false
       ∧ todos_table s !! _id d = None.
Proof.
  intros Hwf. eexists. split; [by apply add_snapshot|].
  split; [done|]. split; [done|].
  simpl. apply not_elem_of_dom, is_fresh.
Qed.

Lemma added_todo_comes_first_witness :
  wfStore oneTodoStore
  ∧ ∃ d, snapshot (commit (Todos.add (lit "Walk")) oneTodoStore).1
         = d :: snapshot oneTodoStore
         ∧ text d = lit "Walk" ∧ isCompleted d = false
         ∧ todos_table oneTodoStore !! _id d = None.
Proof.
  assert (H : wfStore oneTodoStore).
  { apply map_Forall_singleton. split; reflexivity. }
  split; [exact H|]. exact (added_todo_comes_first (lit "Walk") oneTodoStore H).
Defined.

Lemma filter_all {A} (P : A → Prop) `{∀ x, Decision (P x)} (l : list A) :
  Forall P l → filter P l = l.
Proof.
  induction 1 as [|a l Ha _ IH]; [done|].
  by rewrite filter_cons_True, IH.
Qed.

(** The documents filed under other identifiers than [id]. *)
Lemma others_not_id id s :
  wfStore s →
  Forall (λ d, _id d ≠ id) (map_to_list (delete id (todos_table s))).*2.
Proof.
  intros Hwf. apply Forall_fmap, Forall_forall.
  intros [k x] Hin%elem_of_map_to_list. simpl.
  apply lookup_delete_Some in Hin as [Hne Hk].
  destruct (wfStore_lookup _ _ _ Hwf Hk) as [-> _]. done.
Qed.

Lemma delete_snapshot (id : Id) (s : Store) :
  wfStore s →
  snapshot {| todos_table := delete id (todos_table s); clock := clock s |}
  = filter (λ d, _id d ≠ id) (snapshot s).
Proof.
  intros Hwf. pose proof (wfStore_remove id s Hwf) as Hwf'.
  rewrite remove_store in Hwf'.
  symmetry. apply snapshot_unique; [done| |].
  - apply StronglySorted_filter_keep, snapshot_sorted.
  - rewrite snapshot_perm. simpl.
    pose proof (others_not_id id s Hwf) as Hrest.
    destruct (todos_table s !! id) as [d|] eqn:E.
    + rewrite <- (map_to_list_delete _ _ _ E). simpl.
      destruct (wfStore_lookup _ _ _ Hwf E) as [Hid _].
      rewrite filter_cons_False by (intros Hn; by apply Hn).
      by rewrite filter_all.
    + rewrite (delete_id _ _ E) in *. by rewrite filter_all.
Qed.

(** X9: after [remove], the next list delivered is the previous one without the
    record of that identifier, the others in the order they had. *)
Theorem removed_todo_leaves_list (id : Id) (s : Store) :
  wfStore s →
  snapshot (commit (Todos.remove id) s).1
  = filter (λ d, _id d ≠ id) (snapshot s).
Proof.
  intros Hwf. rewrite remove_store.
  by apply delete_snapshot.
Qed.

Lemma removed_todo_leaves_list_witness :
  wfStore oneTodoStore
  ∧ snapshot (commit (Todos.remove 0%N) oneTodoStore).1
    = filter (λ d, _id d ≠ 0%N) (snapshot oneTodoStore).
Proof.
  assert (H : wfStore oneTodoStore).
  { apply map_Forall_singleton. split; reflexivity. }
  split; [exact H|]. exact (removed_todo_leaves_list 0%N oneTodoStore H).
Defined.

Lemma flipAt_others id (l : list Doc) :
  Forall (λ d, _id d ≠ id) l → flipAt id <$> l = l.
Proof.
  induction 1 as [|a l Ha _ IH]; [done|].
  csimpl. rewrite IH. unfold flipAt. by rewrite decide_False.
Qed.

Lemma flipAt_newer_first id a b :
  newer_first a b → newer_first (flipAt id a) (flipAt id b).
Proof. unfold flipAt. by repeat case_decide. Qed.

Lemma toggled_values id s d :
  todos_table s !! id = Some d →
  (map_to_list (<[id := flipped d]> (todos_table s))).*2
  ≡ₚ flipped d :: (map_to_list (delete id (todos_table s))).*2.
Proof.
  intros E. rewrite <- insert_delete_eq.
  rewrite map_to_list_insert by apply lookup_delete_eq. done.
Qed.

(** X10: after [toggle], the next list delivered is the previous one with the
    record of that identifier flipped where it stood: no record moves,
    appears or disappears. When there is no such record the list is the
    same. *)
Theorem toggled_todo_keeps_place (id : Id) (s : Store) :
  wfStore s →
  snapshot (commit (Todos.toggle id) s).1 = flipAt id <$> snapshot s.
Proof.
  intros Hwf. pose proof (wfStore_toggle id s Hwf) as Hwf'.
  pose proof (others_not_id id s Hwf) as Hrest.
  symmetry. apply snapshot_unique; [done| |].
  - eapply StronglySorted_fmap; [|apply snapshot_sorted].
    intros x y. apply flipAt_newer_first.
  - rewrite snapshot_perm. destruct (todos_table s !! id) as [d|] eqn:E.
    + rewrite (toggle_commit_some _ _ _ E). simpl.
      rewrite (toggled_values _ _ _ E).
      rewrite <- (map_to_list_delete _ _ _ E). csimpl.
      rewrite (flipAt_others _ _ Hrest).
      destruct (wfStore_lookup _ _ _ Hwf E) as [Hid _].
      unfold flipAt. by rewrite decide_True.
    + rewrite (toggle_commit_none _ _ E). simpl.
      rewrite (delete_id _ _ E) in Hrest. by rewrite (flipAt_others _ _ Hrest).
Qed.

Lemma toggled_todo_keeps_place_witness :
  wfStore oneTodoStore
  ∧ snapshot (commit (Todos.toggle 0%N) oneTodoStore).1
    = flipAt 0%N <$> snapshot oneTodoStore.
Proof.
  assert (H : wfStore oneTodoStore).
  { apply map_Forall_singleton. split; reflexivity. }
  split; [exact H|]. exact (toggled_todo_keeps_place 0%N oneTodoStore H).
Defined.

(** ** The counter after a call *)

Lemma countNotCompleted_perm (l1 l2 : list Doc) :
  l1 ≡ₚ l2 → countNotCompleted l1 = countNotCompleted l2.
Proof.
  induction 1 as [|a l1 l2 _ IH|a b l|l1 l2 l3 _ IH1 _ IH2]; simpl.
  - done.
  - by rewrite IH.
  - by destruct (isCompleted a), (isCompleted b).
  - congruence.
Qed.

Lemma remaining_snapshot s :
  remaining (Some (snapshot s))
  = countNotCompleted (map_to_list (todos_table s)).*2.
Proof.
  simpl. rewrite filter_not_completed_length.
  apply countNotCompleted_perm, snapshot_perm.
Qed.

(** X11: how one call moves the counter of the next list delivered, for any
    store: [add] raises it by one; [toggle] of a record raises it by one when
    the record was completed and lowers it by one otherwise; [remove] of a
    record lowers it by one unless the record was completed; [toggle] and
    [remove] of an identifier without record leave it. *)
Theorem remaining_after_call (c : Call) (s : Store) :
  let before := remaining (Some (snapshot s)) in
  let after := remaining (Some (snapshot (commit (handlerOf c) s).1)) in
  match c with
  | addTodo _ => after = S before
  | toggleTodo id =>
      match todos_table s !! id with
      | Some d => if isCompleted d then after = S before else S after = before
      | None => after = before
      end
  | removeTodo id =>
      match todos_table s !! id with
      | Some d => if isCompleted d then after = before else S after = before
      | None => after = before
      end
  end.
Proof.
  intros before after. subst before after. rewrite !remaining_snapshot.
  destruct c as [t|id|id]; simpl handlerOf.
  - destruct (add_commit t s) as [Hfree ->]. simpl.
    by rewrite (countNotCompleted_perm _ _
                  (fmap_Permutation snd _ _ (map_to_list_insert _ _ _ Hfree))).
  - destruct (todos_table s !! id) as [d|] eqn:E.
    + rewrite (toggle_commit_some _ _ _ E). simpl.
      rewrite (countNotCompleted_perm _ _ (toggled_values _ _ _ E)).
      rewrite <- (countNotCompleted_perm _ _
                  (fmap_Permutation snd _ _ (map_to_list_delete _ _ _ E))).
      simpl. by destruct (isCompleted d).
    + by rewrite (toggle_commit_none _ _ E).
  - rewrite remove_store. simpl.
    destruct (todos_table s !! id) as [d|] eqn:E.
    + rewrite <- (countNotCompleted_perm _ _
                  (fmap_Permutation snd _ _ (map_to_list_delete _ _ _ E))).
      simpl. by destruct (isCompleted d).
    + by rewrite (delete_id _ _ E).
Qed.

(** ** Identifiers, repeated and stale calls *)

(** X12: what one call does to the set of identifiers in use: [add] adds exactly
    one, which was free; [toggle] never adds or removes one, so it does not
    create the record it does not find; [remove] removes at most the one it
    names. *)
Theorem identifiers_after_call (c : Call) (s : Store) :
  let ids := dom (todos_table s) in
  let ids' := dom (todos_table (commit (handlerOf c) s).1) in
  match c with
  | addTodo _ => ∃ id, (id ∉ ids) ∧ ids' = {[id]} ∪ ids
  | toggleTodo _ => ids' = ids
  | removeTodo id => ids' = ids ∖ {[id]}
  end.
Proof.
  intros ids ids'. subst ids ids'. destruct c as [t|id|id]; simpl handlerOf.
  - destruct (add_commit t s) as [Hfree ->]. simpl.
    eexists. split; [by apply not_elem_of_dom|]. apply dom_insert_L.
  - destruct (todos_table s !! id) as [d|] eqn:E.
    + rewrite (toggle_commit_some _ _ _ E). simpl. rewrite dom_insert_L.
      apply elem_of_dom_2 in E. apply subseteq_union_1_L.
      by apply singleton_subseteq_l.
    + by rewrite (toggle_commit_none _ _ E).
  - rewrite remove_store. simpl. apply dom_delete_L.
Qed.

Lemma flipped_flipped d : flipped (flipped d) = d.
Proof. destruct d. unfold flipped. simpl. by rewrite negb_involutive. Qed.

(** X13: toggling the same identifier twice gives the store back, whether or not
    the identifier has a record. *)
Theorem toggle_twice_restores_store (id : Id) (s : Store) :
  toggleTimes 2 id s = s.
Proof.
  unfold toggleTimes. simpl.
  destruct (todos_table s !! id) as [d|] eqn:E.
  - rewrite (toggle_commit_some _ _ _ E). simpl.
    erewrite toggle_commit_some by (simpl; apply lookup_insert_eq). simpl.
    rewrite insert_insert_eq, flipped_flipped, (insert_id _ _ _ E).
    by destruct s.
  - rewrite (toggle_commit_none _ _ E). simpl.
    by rewrite (toggle_commit_none _ _ E).
Qed.

(** X14: a click on the checkbox of an item whose record was deleted meanwhile,
    from the same stale view, is rejected with "Todo not found" and changes
    nothing. *)
Theorem checkbox_after_delete_rejected (shown : Doc) (s : Store) :
  let s1 := (clickDelete shown s).1 in
  clickCheckbox shown s1 = (s1, [Rejected "Todo not found"]).
Proof.
  intros s1.
  assert (Hs1 : s1 = (commit (Todos.remove (_id shown)) s).1).
  { subst s1. unfold clickDelete, renderItem. simpl.
    by destruct (commit (Todos.remove (_id shown)) s). }
  unfold clickCheckbox, renderItem. simpl.
  rewrite toggle_commit_none; [done|].
  rewrite Hs1, remove_store. simpl. apply lookup_delete_eq.
Qed.

(** ** From the text field to the list *)

(** X15: the user types a text that is not blank and submits; the platform runs
    the call and the subscription delivers. Then the text field is empty and
    the Add button disabled again, no call is left in flight, and the list
    shows the trimmed text as its first item, unchecked, above the items of
    the records that were there. *)
Theorem typed_todo_appears_first (v : jsstring) (w : World) :
  wfStore (db w) → inflight w = [] → trim v ≠ [] →
  let w' := push (deliver (submit (typeText v w))) in
  input (app w') = []
  ∧ submitDisabled (App (app w')) = true
  ∧ inflight w' = []
  ∧ ∃ item,
      listArea (App (app w'))
      = ItemList (item :: (renderItem <$> snapshot (db w)))
      ∧ label item = trim v ∧ checked item = false
      ∧ footer (App (app w'))
        = Some {| footerCount := S (remaining (Some (snapshot (db w))));
                  footerSuffix :=
                    if negb (S (remaining (Some (snapshot (db w)))) =? 1)
                    then "s" else "" |}.
Proof.
  intros Hwf Hin Hv w'.
  pose proof (add_snapshot (trim v) (db w) Hwf) as Hsnap.
  set (d := mkDoc (fresh (dom (todos_table (db w)))) (clock (db w))
                  (trim v) false) in Hsnap.
  assert (Htext : text d = trim v) by done.
  assert (Hflag : isCompleted d = false) by done.
  clearbody d.
  destruct (commit (Todos.add (trim v)) (db w)) as [s1 o] eqn:Hc.
  cbn [fst] in Hsnap.
  assert (Hw' : w' = {| db := s1;
                        app := {| todos := Some (d :: snapshot (db w));
                                  input := [] |};
                        inflight := [];
                        settled := settled w ++ [(addTodo (trim v), o)] |}).
  { subst w'. unfold typeText, inputOnChange, submit, performAll.
    cbn [foldl perform app input]. rewrite (handleSubmit_text _ Hv).
    cbn [foldl perform app input db inflight settled todos]. rewrite Hin.
    unfold deliver. cbn [app db inflight settled].
    rewrite app_nil_l. cbv beta iota. cbn [handlerOf]. rewrite Hc.
    unfold push. cbn [db].
    change (commit Todos.list s1) with (s1, Resolved (snapshot s1)).
    cbn [app input db inflight settled todos]. by rewrite Hsnap. }
  rewrite Hw'. clear Hw' w'. cbn [app input inflight].
  split; [done|]. split; [done|]. split; [done|].
  exists (renderItem d). unfold App.
  cbn [todos listArea footer length Nat.eqb Nat.ltb Nat.leb].
  split; [done|]. split; [done|]. split; [by simpl; rewrite Hflag|].
  cbn [remaining List.filter]. by rewrite Hflag.
Qed.

Lemma typed_todo_appears_first_witness :
  let w := {| db := oneTodoStore;
              app := {| todos := Some [buyMilk]; input := [] |};
              inflight := []; settled := [] |} in
  wfStore (db w) ∧ inflight w = [] ∧ trim (lit " Walk ") ≠ []
  ∧ input (app (push (deliver (submit (typeText (lit " Walk ") w))))) = [].
Proof.
  intros w.
  assert (H : wfStore (db w)).
  { apply map_Forall_singleton. split; reflexivity. }
  assert (Hv : trim (lit " Walk ") ≠ []) by (vm_compute; discriminate).
  split; [exact H|]. split; [reflexivity|]. split; [exact Hv|].
  exact (proj1 (typed_todo_appears_first (lit " Walk ") w H eq_refl Hv)).
Defined.

(** X16: the user clicks the delete button of an item; the platform runs the call
    and the subscription delivers. Then the list is the one before without
    the records of that identifier, in the same order, and no item shown has
    that key. *)
Theorem deleted_item_disappears (shown : Doc) (w : World) :
  wfStore (db w) → inflight w = [] →
  let w' := push (deliver (performAll (onClick (renderItem shown)) w)) in
  todos (app w') = Some (filter (λ d, _id d ≠ _id shown) (snapshot (db w)))
  ∧ input (app w') = input (app w)
  ∧ ∀ items, listArea (App (app w')) = ItemList items →
             _id shown ∉ key <$> items.
Proof.
  intros Hwf Hin w'.
  pose proof (delete_snapshot (_id shown) (db w) Hwf) as Hsnap.
  assert (Hw' : app w' = {| todos := Some (filter (λ d, _id d ≠ _id shown)
                                             (snapshot (db w)));
                            input := input (app w) |}).
  { subst w'. unfold performAll, renderItem.
    cbn [onClick foldl perform]. unfold deliver.
    cbn [app db inflight settled]. rewrite Hin, app_nil_l. cbv beta iota.
    cbn [handlerOf].
    pose proof (remove_store (_id shown) (db w)) as Hs1.
    destruct (commit (Todos.remove (_id shown)) (db w)) as [s1 o].
    cbn [fst] in Hs1. subst s1. unfold push. cbn [db].
    change (commit Todos.list ?s) with (s, Resolved (snapshot s)).
    cbn [app input todos]. by rewrite Hsnap. }
  rewrite Hw'. clear Hw' w'. split; [done|]. split; [done|].
  intros items. unfold App. cbn [todos listArea].
  destruct (length _ =? 0); [done|]. intros [= <-].
  rewrite <- list_fmap_compose.
  intros (d & Hid & Hd%list_elem_of_filter)%list_elem_of_fmap.
  simpl in Hid. by destruct Hd as [Hne _].
Qed.

Lemma deleted_item_disappears_witness :
  let w := {| db := oneTodoStore;
              app := {| todos := Some [buyMilk]; input := [] |};
              inflight := []; settled := [] |} in
  wfStore (db w) ∧ inflight w = []
  ∧ todos (app (push (deliver (performAll (onClick (renderItem buyMilk)) w))))
    = Some (filter (λ d, _id d ≠ _id buyMilk) (snapshot (db w))).
Proof.
  intros w.
  assert (H : wfStore (db w)).
  { apply map_Forall_singleton. split; reflexivity. }
  split; [exact H|]. split; [reflexivity|].
  exact (proj1 (deleted_item_disappears buyMilk w H eq_refl)).
Defined.

(** ** Whitespace around the input *)

Lemma trimStart_app_ws (pre s : jsstring) :
  whitespaceOnly pre → trimStart (pre ++ s) = trimStart s.
Proof. induction 1 as [|c pre Hc _ IH]; [done|]. simpl. by rewrite Hc. Qed.

Lemma trimEnd_app_ws (s post : jsstring) :
  whitespaceOnly post → trimEnd (s ++ post) = trimEnd s.
Proof.
  intros H. unfold trimEnd. rewrite reverse_app, trimStart_app_ws; [done|].
  by apply Forall_reverse.
Qed.

Lemma trimStart_app (s b : jsstring) :
  trimStart s ≠ [] → trimStart (s ++ b) = trimStart s ++ b.
Proof.
  induction s as [|c s IH]; simpl; [done|].
  by destruct (isWhiteSpace c).
Qed.

Lemma trim_surrounded (pre i post : jsstring) :
  whitespaceOnly pre → whitespaceOnly post →
  trim (pre ++ i ++ post) = trim i.
Proof.
  intros Hpre Hpost. unfold trim. rewrite (trimStart_app_ws _ _ Hpre).
  destruct (trimStart i) as [|c r] eqn:E.
  - apply trimStart_nil_iff in E.
    assert (H : trimStart (i ++ post) = []).
    { apply trimStart_nil_iff. by apply Forall_app. }
    by rewrite H.
  - rewrite trimStart_app by by rewrite E.
    rewrite E. by apply trimEnd_app_ws.
Qed.

(** X4: whitespace before and after the input makes no difference to what the
    form does: the handler has the same effects, the same call included. *)
Theorem surrounding_whitespace_ignored (pre i post : jsstring) :
  whitespaceOnly pre → whitespaceOnly post →
  handleSubmit (pre ++ i ++ post) = handleSubmit i.
Proof.
  intros Hpre Hpost. unfold handleSubmit.
  by rewrite (trim_surrounded _ _ _ Hpre Hpost).
Qed.

Lemma surrounding_whitespace_ignored_witness :
  whitespaceOnly (lit "  ") ∧ whitespaceOnly (lit " ")
  ∧ handleSubmit (lit "  " ++ lit "Buy milk" ++ lit " ")
    = handleSubmit (lit "Buy milk").
Proof.
  assert (H1 : whitespaceOnly (lit "  ")) by (vm_compute; repeat constructor).
  assert (H2 : whitespaceOnly (lit " ")) by (vm_compute; repeat constructor).
  split; [exact H1|]. split; [exact H2|].
  exact (surrounding_whitespace_ignored _ (lit "Buy milk") _ H1 H2).
Defined.
